(** * local_cloudbuild: validation, command lowering and script assembly

    A shallow embedding of [scripts/local_cloudbuild.py].  The program
    reads a decoded [cloudbuild.yaml] document, validates it into a list
    of build steps, lowers every step to a [docker run] command made of
    shell-quoted tokens, and assembles the commands into a shell script.

    Python strings are modelled by [string]: sequences of 8-bit
    characters, read as the UTF-8 encoding of the text.  The only
    characters the program looks at (the quote, the path separator and
    the characters [shlex.quote] leaves alone) are ASCII, and [re.ASCII]
    makes every non-ASCII character unsafe, as every byte above 127 is
    here. *)

From Stdlib Require Import String Ascii List ZArith Lia Bool DecimalString.
Import ListNotations.

Local Open Scope list_scope.
Local Open Scope string_scope.

(** ** Characters and small string helpers *)

Definition dquote : ascii := "034"%char.
Definition newline : ascii := "010"%char.
Definition tab : ascii := "009"%char.

Definition str (c : ascii) : string := String c EmptyString.

Definition DQ : string := str dquote.
Definition NL : string := str newline.

Definition in_range (lo hi : nat) (c : ascii) : bool :=
  (lo <=? nat_of_ascii c)%nat && (nat_of_ascii c <=? hi)%nat.

Definition one_of (cs : list ascii) (c : ascii) : bool :=
  existsb (Ascii.eqb c) cs.

(** [str.startswith] *)
Definition startswith (s p : string) : bool := String.prefix p s.

(** [str.endswith], for a one-character suffix *)
Fixpoint ends_with_char (s : string) (c : ascii) : bool :=
  match s with
  | EmptyString => false
  | String d EmptyString => Ascii.eqb d c
  | String _ r => ends_with_char r c
  end.

(** [sep.join(parts)] *)
Fixpoint str_join (sep : string) (parts : list string) : string :=
  match parts with
  | [] => EmptyString
  | [p] => p
  | p :: rest => p ++ sep ++ str_join sep rest
  end.

(** ** [shlex.quote] (CPython, [Lib/shlex.py]) *)

Module Shlex.

(** [\w] under [re.ASCII]: letters, digits and the underscore. *)
Definition is_word (c : ascii) : bool :=
  in_range 48 57 c || in_range 65 90 c || in_range 97 122 c
  || Ascii.eqb c "_".

(** The complement of the class [[^\w@%+=:,./-]]. *)
Definition is_safe (c : ascii) : bool :=
  is_word c || one_of ["@"; "%"; "+"; "="; ":"; ","; "."; "/"; "-"]%char c.

(** [_find_unsafe = re.compile(r'[^\w@%+=:,./-]', re.ASCII).search]:
    the first unsafe character, if there is one. *)
Fixpoint find_unsafe (s : string) : option ascii :=
  match s with
  | EmptyString => None
  | String c r => if is_safe c then find_unsafe r else Some c
  end.

(** [s.replace(old, new)] for a one-character [old]. *)
Fixpoint replace (old : ascii) (new : string) (s : string) : string :=
  match s with
  | EmptyString => EmptyString
  | String c r =>
      if Ascii.eqb c old then new ++ replace old new r
      else String c (replace old new r)
  end.

(** The replacement text for a single quote: close the single-quoted
    part, give the quote between double quotes, open again. *)
Definition squote_escape : string := "'" ++ DQ ++ "'" ++ DQ ++ "'".

(** <<
    def quote(s):
        if not s:
            return "''"
        if _find_unsafe(s) is None:
            return s
        return "'" + s.replace("'", "'\"'\"'") + "'"
    >> *)
Definition quote (s : string) : string :=
  match s with
  | EmptyString => "''"
  | _ =>
      match find_unsafe s with
      | None => s
      | Some _ => "'" ++ replace "'" squote_escape s ++ "'"
      end
  end.

End Shlex.

(** ** The reading side: words of a POSIX shell command line

    The program only writes command lines; the shell reads them.  This
    reader is not code of the program: it is what the specification calls
    [unquote], the token recognition and quote removal of the POSIX shell
    command language (sections 2.2 and 2.3), restricted to command lines
    whose words are literal: an active operator, expansion, pattern or
    comment character outside quotes makes the line not a list of literal
    words.  It works on characters; what a process argument can hold is
    not its concern. *)

Module Shell.

Inductive quoting := Unquoted | InSingle | InDouble.

Definition is_blank (c : ascii) : bool := one_of [" "%char; tab; newline] c.

(** Characters that are active outside quotes: operators, expansions,
    patterns, comment, tilde, history and brace expansion.  The blanks,
    the two quotes and the backslash are handled by the reader itself. *)
Definition is_active (c : ascii) : bool :=
  one_of ["|"; "&"; ";"; "<"; ">"; "("; ")"; "$"; "`";
          "*"; "?"; "["; "]"; "#"; "~"; "!"; "{"; "}"]%char c.

(** Characters that stay active between double quotes. *)
Definition is_active_in_double (c : ascii) : bool :=
  one_of ["$"; "`"; "!"]%char c.

(** Characters a backslash escapes between double quotes. *)
Definition is_escapable_in_double (c : ascii) : bool :=
  one_of ["$"%char; "`"%char; dquote; "\"%char] c.

(** The word under construction: [None] before its first character or
    quote, so that [''] is a word and a run of blanks is not. *)
Definition push (cur : option string) (c : ascii) : option string :=
  match cur with
  | None => Some (str c)
  | Some w => Some (w ++ str c)
  end.

Definition started (cur : option string) : option string :=
  match cur with
  | None => Some EmptyString
  | Some w => Some w
  end.

Definition emit (cur : option string) (rest : option (list string))
  : option (list string) :=
  match cur with
  | None => rest
  | Some w => option_map (cons w) rest
  end.

Fixpoint words (q : quoting) (cur : option string) (s : string)
  : option (list string) :=
  match s with
  | EmptyString =>
      match q with
      | Unquoted => emit cur (Some [])
      | _ => None
      end
  | String c r =>
      match q with
      | Unquoted =>
          if is_blank c then emit cur (words Unquoted None r)
          else if Ascii.eqb c "'" then words InSingle (started cur) r
          else if Ascii.eqb c dquote then words InDouble (started cur) r
          else if Ascii.eqb c "\" then
            match r with
            | EmptyString => None
            | String d r' =>
                if Ascii.eqb d newline then words Unquoted cur r'
                else words Unquoted (push cur d) r'
            end
          else if is_active c then None
          else words Unquoted (push cur c) r
      | InSingle =>
          if Ascii.eqb c "'" then words Unquoted cur r
          else words InSingle (push cur c) r
      | InDouble =>
          if Ascii.eqb c dquote then words Unquoted cur r
          else if Ascii.eqb c "\" then
            match r with
            | EmptyString => None
            | String d r' =>
                if Ascii.eqb d newline then words InDouble cur r'
                else if is_escapable_in_double d
                then words InDouble (push cur d) r'
                else words InDouble (push (push cur c) d) r'
            end
          else if is_active_in_double c then None
          else words InDouble (push cur c) r
      end
  end.

(** [shlex.split]-like reading of a whole command line. *)
Definition split (s : string) : option (list string) :=
  words Unquoted None s.

(** The inverse of quoting: the text read as exactly one word. *)
Definition unquote (s : string) : option string :=
  match split s with
  | Some [w] => Some w
  | _ => None
  end.

(** No active character and no blank outside quotes, and every quote
    closed: the text is one literal word, whatever it contains. *)
Fixpoint inert (q : quoting) (s : string) : bool :=
  match s with
  | EmptyString =>
      match q with
      | Unquoted => true
      | _ => false
      end
  | String c r =>
      match q with
      | Unquoted =>
          if Ascii.eqb c "'" then inert InSingle r
          else if Ascii.eqb c dquote then inert InDouble r
          else negb (is_blank c || is_active c || Ascii.eqb c "\")
               && inert Unquoted r
      | InSingle =>
          if Ascii.eqb c "'" then inert Unquoted r else inert InSingle r
      | InDouble =>
          if Ascii.eqb c dquote then inert Unquoted r
          else negb (is_active_in_double c || Ascii.eqb c "\")
               && inert InDouble r
      end
  end.

Definition no_unescaped_metacharacter (s : string) : bool :=
  inert Unquoted s.

End Shell.

(** ** [os.path.join] (CPython, [Lib/posixpath.py]) *)

Module Posixpath.

Definition sep : string := "/".

(** One turn of the loop over the later components:
    <<
    if b.startswith(sep):              path = b
    elif not path or path.endswith(sep): path += b
    else:                              path += sep + b
    >> *)
Definition join_step (path b : string) : string :=
  if startswith b sep then b
  else if (path =? EmptyString) || ends_with_char path "/" then path ++ b
  else path ++ sep ++ b.

Definition join (a : string) (p : list string) : string :=
  fold_left join_step p a.

End Posixpath.

(** ** Exceptions *)

(** The types a decoded document value can have. *)
Inductive pytype := TStr | TInt | TList | TDict.

(** A field name of a mapping or an index of a sequence. *)
Inductive key :=
| Field (field_name : string)
| Index (index : nat).

(** The texts of the [ValueError]s, one constructor per format string,
    with the values filled into it. *)
Inductive message :=
| ContentsNotDict (config : string) (found : pytype)
    (* 'Expected {} contents to be of type "dict", but found type "{}"' *)
| NoStepsDefined (config : string)
    (* 'No steps defined in {}' *)
| StepNotDict (found : pytype)
    (* 'Expected step to be of type "dict", but found type "{}"' *)
| FieldMismatch (field : key) (expected found : pytype)
    (* raised by [get_field_value]: what was expected and what was found *)
| ClosedFile.
    (* 'I/O operation on closed file' *)

Inductive exn :=
| ValueError (msg : message)
| TypeError.

Inductive result (A : Type) :=
| OK (a : A)
| Raise (e : exn).

Arguments OK {A} a.
Arguments Raise {A} e.

Definition bind {A B} (r : result A) (k : A -> result B) : result B :=
  match r with
  | OK a => k a
  | Raise e => Raise e
  end.

Notation "x <- r ;; k" := (bind r (fun x => k))
  (at level 61, r at next level, right associativity).

(** A list comprehension whose element expression can raise: the first
    exception ends it. *)
Fixpoint comprehension {A B} (f : A -> result B) (l : list A)
  : result (list B) :=
  match l with
  | [] => OK []
  | a :: rest =>
      b <- f a ;;
      bs <- comprehension f rest ;;
      OK (b :: bs)
  end.

Definition raises_ValueError {A} (r : result A) : Prop :=
  exists msg, r = Raise (ValueError msg).

(** ** The data model *)

(** Single validated step in a cloudbuild recipe:
    [Step = collections.namedtuple('Step', 'args dir_ env name')] *)
Record Step := {
  args : list string;
  dir_ : string;
  env : list string;
  name : string;
}.

(** Validated cloudbuild recipe + flags:
    [CloudBuild = collections.namedtuple('CloudBuild', 'output_script run steps')] *)
Record CloudBuild := {
  output_script : string;
  run : bool;
  steps : list Step;
}.

(** The command line flags, as [parse_args] returns them. *)
Module Args.
Record Namespace := {
  config : string;
  output_script : string;
  run : bool;
}.
End Args.

(** ** Command lowering *)

(** The tokens before the working directory. *)
Definition docker_prefix : list string :=
  [ "docker";
    "run";
    "--volume";
    "/var/run/docker.sock:/var/run/docker.sock";
    "--volume";
    "/root/.docker:/root/.docker";
    "--volume";
    "${HOST_WORKSPACE}:/workspace";
    "--workdir" ].

(** Truth value of a string: it is not empty. *)
Definition truthy (s : string) : bool := negb (s =? EmptyString).

(** The loop [for env in step.env: quoted_env.extend(['--env', quote(env)])] *)
Definition extend_env (quoted_env : list string) (e : string) : list string :=
  (quoted_env ++ ["--env"; Shlex.quote e])%list.

Definition generate_command (step : Step) : list string :=
  let quoted_args := map Shlex.quote (args step) in
  let quoted_env := fold_left extend_env (env step) [] in
  let quoted_name := Shlex.quote (name step) in
  let workdir := "/workspace" in
  let workdir :=
    if truthy (dir_ step)
    then Posixpath.join workdir [Shlex.quote (dir_ step)]
    else workdir in
  (docker_prefix ++ [workdir] ++ quoted_env ++ [quoted_name] ++ quoted_args)%list.

(** The value of a flag in a token list: the token after the first
    occurrence of the flag. *)
Fixpoint flag_value (flag : string) (tokens : list string) : option string :=
  match tokens with
  | t :: ((v :: _) as rest) =>
      if t =? flag then Some v else flag_value flag rest
  | _ => None
  end.

(** ** [io.StringIO]: text buffers in memory

    Every call of [io.StringIO()] makes a new buffer object.  The store
    holds the buffers made so far; a closed buffer has lost its text. *)

Module StringIO.

Definition store := list (option string).
Definition handle := nat.

(** A computation that reads and changes the store and can raise. *)
Definition io (A : Type) := store -> result A * store.

Definition ret {A} (a : A) : io A := fun h => (OK a, h).

Definition then_ {A B} (m : io A) (k : A -> io B) : io B :=
  fun h =>
    match m h with
    | (OK a, h') => k a h'
    | (Raise e, h') => (Raise e, h')
    end.

Fixpoint set_nth {A} (n : nat) (a : A) (l : list A) : list A :=
  match l, n with
  | [], _ => []
  | _ :: rest, O => a :: rest
  | b :: rest, S m => b :: set_nth m a rest
  end.

(** [io.StringIO()] *)
Definition new : io handle :=
  fun h => (OK (length h), (h ++ [Some EmptyString])%list).

(** [outfile.write(s)]: the program only ever writes at the end of the
    buffer; the call returns the number of characters written. *)
Definition write (f : handle) (s : string) : io nat :=
  fun h =>
    match nth_error h f with
    | Some (Some buffer) => (OK (String.length s), set_nth f (Some (buffer ++ s)) h)
    | _ => (Raise (ValueError ClosedFile), h)
    end.

(** [outfile.getvalue()] *)
Definition getvalue (f : handle) : io string :=
  fun h =>
    match nth_error h f with
    | Some (Some buffer) => (OK buffer, h)
    | _ => (Raise (ValueError ClosedFile), h)
    end.

(** [outfile.close()] *)
Definition close (f : handle) : io unit :=
  fun h => (OK tt, set_nth f None h).

(** A [for] loop whose body works on the store. *)
Fixpoint for_each {A B} (l : list A) (body : A -> io B) : io unit :=
  match l with
  | [] => ret tt
  | a :: rest => then_ (body a) (fun _ => for_each rest body)
  end.

End StringIO.

Notation "x <~ m ;; k" := (StringIO.then_ m (fun x => k))
  (at level 61, m at next level, right associativity).

(** ** Script assembly *)

Definition dq (s : string) : string := DQ ++ s ++ DQ.

(** The text made of the given lines, each ended by a newline. *)
Definition text (lines : list string) : string :=
  String.concat EmptyString (map (fun l => l ++ NL) lines).

Definition BUILD_SCRIPT_HEADER : string := text
  [ "#!/bin/bash";
    "# This is a generated file.  Do not edit.";
    EmptyString;
    "set -euo pipefail";
    EmptyString;
    "SOURCE_DIR=.";
    EmptyString;
    "# Setup staging directory";
    "HOST_WORKSPACE=$(mktemp -d)";
    "function cleanup {";
    "    if [ " ++ dq "${HOST_WORKSPACE}" ++ " != '/' -a -d "
      ++ dq "${HOST_WORKSPACE}" ++ " ]; then";
    "        rm -rf " ++ dq "${HOST_WORKSPACE}";
    "    fi";
    "}";
    "trap cleanup EXIT";
    EmptyString;
    "# Copy source to staging directory";
    "echo " ++ dq "Copying source to staging directory ${HOST_WORKSPACE}";
    "rsync -avzq --exclude=.git " ++ dq "${SOURCE_DIR}" ++ " "
      ++ dq "${HOST_WORKSPACE}";
    EmptyString;
    "# Build commands" ].

Definition BUILD_SCRIPT_FOOTER : string := text
  [ "# End of build commands";
    EmptyString;
    "echo " ++ dq "Build completed successfully" ].

Definition generate_script (cloudbuild : CloudBuild) : StringIO.io string :=
  outfile <~ StringIO.new ;;
  _ <~ StringIO.write outfile BUILD_SCRIPT_HEADER ;;
  let docker_commands := map generate_command (steps cloudbuild) in
  _ <~ StringIO.for_each docker_commands (fun docker_command =>
         let line := str_join " " docker_command ++ NL ++ NL in
         StringIO.write outfile line) ;;
  _ <~ StringIO.write outfile BUILD_SCRIPT_FOOTER ;;
  s <~ StringIO.getvalue outfile ;;
  _ <~ StringIO.close outfile ;;
  StringIO.ret s.

(** The script text the assembler is to produce, as a plain
    concatenation: header, one line and one blank line per step, footer. *)
Definition command_line (step : Step) : string :=
  str_join " " (generate_command step) ++ NL ++ NL.

Definition script_text (recipe : list Step) : string :=
  BUILD_SCRIPT_HEADER
  ++ String.concat EmptyString (map command_line recipe)
  ++ BUILD_SCRIPT_FOOTER.

(** ** Decoded documents *)

(** What [yaml.safe_load] returns, for the documents considered here:
    strings, integers, sequences and mappings with string keys.  (Null,
    booleans and floating point scalars are not represented.) *)
#[local] Set Warnings "-register-all".

Inductive value :=
| VStr (s : string)
| VInt (n : Z)
| VList (l : list value)
| VDict (d : list (string * value)).

Definition type_of (v : value) : pytype :=
  match v with
  | VStr _ => TStr
  | VInt _ => TInt
  | VList _ => TList
  | VDict _ => TDict
  end.

(** [str(n)] for an integer: its decimal form. *)
Definition str_of_int (n : Z) : string := NilEmpty.string_of_int (Z.to_int n).

(** [d[k]] on a mapping: the value bound to the field. *)
Fixpoint assoc (k : string) (d : list (string * value)) : option value :=
  match d with
  | [] => None
  | (k', v) :: rest => if k' =? k then Some v else assoc k rest
  end.

(** [container[field_name]], [None] where Python raises [KeyError] or
    [IndexError].  The program looks up fields in mappings and indices in
    lists only; the other combinations do not occur and count as absent. *)
Definition lookup (container : value) (field_name : key) : option value :=
  match container, field_name with
  | VDict d, Field f => assoc f d
  | VList l, Index i => nth_error l i
  | _, _ => None
  end.

(** The two types the program asks [get_field_value] for: [str] and
    [list]. *)
Inductive field_type := Str | List.

Definition instance (T : field_type) : Type :=
  match T with
  | Str => string
  | List => list value
  end.

(** [field_type()]: the empty value of the type. *)
Definition empty (T : field_type) : instance T :=
  match T with
  | Str => EmptyString
  | List => []
  end.

Definition pytype_of (T : field_type) : pytype :=
  match T with
  | Str => TStr
  | List => TList
  end.

(** Modelled from the spec: [validation_utils.get_field_value], which
    [get_cloudbuild] and [get_step] call and which is not among the
    source files.  The spec: "look up a named field, if present assert
    its type (or, for sequences, assert every element's type) and return
    it; if absent return the type's empty value", and "only
    scalar-to-string coercion is permitted for [args]/[env] elements".
    So an absent field or index gives the empty value of the type; a
    present value of the type asked for is returned; where a string is
    asked for, a non-string scalar is coerced to its string form when it
    is an element of a sequence (fetched by index), and is a type
    mismatch when it is a field of a mapping; every other value is a
    type mismatch. *)
Definition get_field_value (container : value) (field_name : key)
    (T : field_type) : result (instance T) :=
  match lookup container field_name with
  | None => OK (empty T)
  | Some v =>
      match T return result (instance T) with
      | Str =>
          match v, field_name with
          | VStr s, _ => OK s
          | VInt n, Index _ => OK (str_of_int n)
          | _, _ =>
              Raise (ValueError (FieldMismatch field_name TStr (type_of v)))
          end
      | List =>
          match v with
          | VList l => OK l
          | _ => Raise (ValueError (FieldMismatch field_name TList (type_of v)))
          end
      end
  end.

(** ** Validation *)

(** [isinstance(v, dict)] *)
Definition is_dict (v : value) : bool :=
  match v with
  | VDict _ => true
  | _ => false
  end.

Definition get_step (raw_step : value) : result Step :=
  if negb (is_dict raw_step) then
    Raise (ValueError (StepNotDict (type_of raw_step)))
  else
    raw_args <- get_field_value raw_step (Field "args") List ;;
    args <- comprehension
              (fun index => get_field_value (VList raw_args) (Index index) Str)
              (seq 0 (length raw_args)) ;;
    dir_ <- get_field_value raw_step (Field "dir") Str ;;
    raw_env <- get_field_value raw_step (Field "env") List ;;
    env <- comprehension
             (fun index => get_field_value (VList raw_env) (Index index) Str)
             (seq 0 (length raw_env)) ;;
    name <- get_field_value raw_step (Field "name") Str ;;
    OK {| args := args; dir_ := dir_; env := env; name := name |}.

Definition get_cloudbuild (raw_config : value) (args : Args.Namespace)
  : result CloudBuild :=
  if negb (is_dict raw_config) then
    Raise (ValueError (ContentsNotDict (Args.config args) (type_of raw_config)))
  else
    raw_steps <- get_field_value raw_config (Field "steps") List ;;
    match raw_steps with
    | [] => Raise (ValueError (NoStepsDefined (Args.config args)))
    | _ =>
        steps <- comprehension get_step raw_steps ;;
        OK {| output_script := Args.output_script args;
              run := Args.run args;
              steps := steps |}
    end.

(** ** Command lowering on arbitrary objects

    A [Step] tuple built by hand (as the tests do) can hold any object in
    any field.  This is [generate_command] read with Python's dynamic
    typing: iterating or quoting an object of the wrong type raises
    [TypeError]. *)

Module Dynamic.

Record Step := {
  args : value;
  dir_ : value;
  env : value;
  name : value;
}.

(** [bool(v)] *)
Definition truthy (v : value) : bool :=
  match v with
  | VStr s => negb (s =? EmptyString)
  | VInt n => negb (n =? 0)%Z
  | VList l => negb (length l =? 0)%nat
  | VDict d => negb (length d =? 0)%nat
  end.

(** [iter(v)]: the elements of a list, the characters of a string, the
    keys of a mapping; an integer is not iterable. *)
Definition iterate (v : value) : result (list value) :=
  match v with
  | VList l => OK l
  | VStr s => OK (map (fun c => VStr (str c)) (list_ascii_of_string s))
  | VDict d => OK (map (fun kv => VStr (fst kv)) d)
  | VInt _ => Raise TypeError
  end.

(** [shlex.quote(v)]: [not v] is asked first, then the regular
    expression search raises for anything that is not a string. *)
Definition quote (v : value) : result string :=
  if negb (truthy v) then OK "''"
  else
    match v with
    | VStr s => OK (Shlex.quote s)
    | _ => Raise TypeError
    end.

(** A [for] loop over a list with an accumulator and a body that can
    raise. *)
Fixpoint for_loop {A S} (body : S -> A -> result S) (l : list A) (s : S)
  : result S :=
  match l with
  | [] => OK s
  | a :: rest => s' <- body s a ;; for_loop body rest s'
  end.

Definition generate_command (step : Step) : result (list string) :=
  arg_list <- iterate (args step) ;;
  quoted_args <- comprehension quote arg_list ;;
  env_list <- iterate (env step) ;;
  quoted_env <- for_loop
                  (fun quoted_env e =>
                     q <- quote e ;; OK (quoted_env ++ ["--env"; q])%list)
                  env_list [] ;;
  quoted_name <- quote (name step) ;;
  let workdir := "/workspace" in
  workdir <- (if truthy (dir_ step)
              then q <- quote (dir_ step) ;; OK (Posixpath.join workdir [q])
              else OK workdir) ;;
  OK (docker_prefix ++ [workdir] ++ quoted_env ++ [quoted_name]
      ++ quoted_args)%list.

Definition is_str (v : value) : bool :=
  match v with
  | VStr _ => true
  | _ => false
  end.

Definition is_str_list (v : value) : bool :=
  match v with
  | VList l => forallb is_str l
  | _ => false
  end.

(** Structurally valid: string [name] and [dir_], lists of strings for
    [args] and [env]. *)
Definition valid (step : Step) : bool :=
  is_str_list (args step) && is_str (dir_ step)
  && is_str_list (env step) && is_str (name step).

End Dynamic.

(** A validated step, seen as the tuple of objects it is. *)
Definition as_objects (step : Step) : Dynamic.Step :=
  {| Dynamic.args := VList (map VStr (args step));
     Dynamic.dir_ := VStr (dir_ step);
     Dynamic.env := VList (map VStr (env step));
     Dynamic.name := VStr (name step) |}.

(** ** Descriptions to compare the program with *)

(** What a present value must look like: a string for a string field;
    a list of scalars for a field that is a sequence of strings, where a
    scalar that is not a string is given in its string form. *)
Definition scalar (v : value) : bool :=
  match v with
  | VStr _ | VInt _ => true
  | _ => false
  end.

Definition string_form (v : value) : string :=
  match v with
  | VStr s => s
  | VInt n => str_of_int n
  | _ => EmptyString
  end.

Definition accepted_as_string (o : option value) : bool :=
  match o with
  | None => true
  | Some (VStr _) => true
  | Some _ => false
  end.

Definition accepted_as_strings (o : option value) : bool :=
  match o with
  | None => true
  | Some (VList l) => forallb scalar l
  | Some _ => false
  end.

Definition string_of_field (o : option value) : string :=
  match o with
  | Some (VStr s) => s
  | _ => EmptyString
  end.

Definition strings_of_field (o : option value) : list string :=
  match o with
  | Some (VList l) => map string_form l
  | _ => []
  end.

Definition accepted_step (d : list (string * value)) : bool :=
  accepted_as_strings (assoc "args" d) && accepted_as_string (assoc "dir" d)
  && accepted_as_strings (assoc "env" d) && accepted_as_string (assoc "name" d).

Definition step_of_fields (d : list (string * value)) : Step :=
  {| args := strings_of_field (assoc "args" d);
     dir_ := string_of_field (assoc "dir" d);
     env := strings_of_field (assoc "env" d);
     name := string_of_field (assoc "name" d) |}.

(** The tokens of one [env] entry. *)
Definition env_flags (e : string) : list string := ["--env"; Shlex.quote e].

(** The value the working directory flag is given. *)
Definition workdir_of (step : Step) : string :=
  if truthy (dir_ step)
  then Posixpath.join "/workspace" [Shlex.quote (dir_ step)]
  else "/workspace".

(** ** Inputs of the test suite *)

(** The step of [test_generate_command], with the [dir] that a case
    replaces. *)
Definition step_with_dir (dir : string) : Step :=
  {| args := ["arg1"; "arg2"];
     dir_ := dir;
     env := ["ENV1=value1"; "ENV2=value2"];
     name := "aname" |}.

Definition base_step : Step := step_with_dir EmptyString.

(** The flags of [test_get_cloudbuild]. *)
Definition test_flags : Args.Namespace :=
  {| Args.config := "some_config_file";
     Args.output_script := "some_output_script";
     Args.run := false |}.

(** The "full step" of [test_get_step]. *)
Definition full_step : list (string * value) :=
  [ ("name", VStr "aname");
    ("args", VList [VStr "arg1"; VInt 2; VStr ("arg3 with " ++ NL ++ " newline")]);
    ("env", VList [VStr "ENV1=value1"; VStr "ENV2=space in value2"]);
    ("dir", VStr "adir") ].

(** The recipe of [test_generate_script]. *)
Definition golden_recipe : CloudBuild :=
  {| output_script := "test_generate_script";
     run := false;
     steps :=
       [ {| args := ["/bin/sh"; "-c"; "echo " ++ dq "${MESSAGE}"];
            dir_ := EmptyString;
            env := ["MESSAGE=Hello World!"];
            name := "debian" |};
         {| args := ["/bin/sh"; "-c"; "echo " ++ dq "${MESSAGE}"];
            dir_ := EmptyString;
            env := ["MESSAGE=Goodbye\n And Farewell!"; "UNUSED=unused"];
            name := "debian" |} ] |}.

(** ** File modes *)

(** The arithmetic of [make_executable] on the mode of a file:
    <<
    mode |= (mode & 0o444) >> 2  # copy R bits to X
    >>
    [0o444] is 292. *)
Definition make_executable_mode (mode : Z) : Z :=
  Z.lor mode (Z.shiftr (Z.land mode 292) 2).

(** The positions of the three execute bits ([0o111]): other, group and
    owner.  The read bit of the same class is two positions higher. *)
Definition is_execute_bit (n : Z) : bool :=
  (n =? 0)%Z || (n =? 3)%Z || (n =? 6)%Z.

(** ** Files, processes and the standard output

    What the program touches outside its own memory.  The files that
    can be read are in the world, each with the mode [os.stat] reports and
    the text that reading it gives.  Writing a file, asking for its mode
    and changing its mode are the platform's: what they do to the world
    and which exception they raise is not decided here. *)

Module Os.

Record file := {
  st_mode : Z;
  data : string;
}.

Definition filesystem := list (string * file).

Fixpoint find (path : string) (fs : filesystem) : option file :=
  match fs with
  | [] => None
  | (p, f) :: rest => if p =? path then Some f else find path rest
  end.

(** The file system with [f] at [path], in place of the file that was
    there or as a new file. *)
Fixpoint put (path : string) (f : file) (fs : filesystem) : filesystem :=
  match fs with
  | [] => [(path, f)]
  | (p, g) :: rest =>
      if p =? path then (p, f) :: rest else (p, g) :: put path f rest
  end.

(** The exceptions that can leave [local_cloudbuild]. *)
Inductive failure :=
| Core (e : exn)
    (* a [ValueError] or [TypeError] of validation and lowering *)
| FileNotFoundError (path : string)
| OSError (class_name : string) (path : string)
    (* any other [OSError], with the name of its class *)
| ParseError
    (* raised by [yaml.safe_load] *)
| CalledProcessError (returncode : Z).

Inductive outcome (A : Type) :=
| Done (a : A)
| Failed (f : failure).

Arguments Done {A} a.
Arguments Failed {A} f.

Record world := {
  files : filesystem;
  buffers : StringIO.store;
  stdout : list string;
}.

Definition action (A : Type) := world -> outcome A * world.

Definition ret {A} (a : A) : action A := fun w => (Done a, w).

Definition then_ {A B} (m : action A) (k : A -> action B) : action B :=
  fun w =>
    match m w with
    | (Done a, w') => k a w'
    | (Failed f, w') => (Failed f, w')
    end.

(** What the program takes from its platform: the YAML parser, the
    current directory (through [os.path.abspath]), the subprocess it
    starts, and the three file operations of [write_script] and
    [make_executable]:
    - [open_write path contents] is
      [with open(path, 'w', encoding='utf8') as f: f.write(contents)];
    - [stat path] is [os.stat(path).st_mode];
    - [chmod path mode] is [os.chmod(path, mode)]. *)
Record platform := {
  safe_load : string -> outcome value;
  abspath : string -> string;
  check_call : list string -> action unit;
  open_write : string -> string -> action unit;
  stat : string -> action Z;
  chmod : string -> Z -> action unit;
}.

(** A result of the core, raised further as it is. *)
Definition of_result {A} (r : result A) : action A :=
  fun w =>
    match r with
    | OK a => (Done a, w)
    | Raise e => (Failed (Core e), w)
    end.

(** A computation on the text buffers, run in the world. *)
Definition of_io {A} (m : StringIO.io A) : action A :=
  fun w =>
    let (r, h) := m (buffers w) in
    let w' := {| files := files w; buffers := h; stdout := stdout w |} in
    match r with
    | OK a => (Done a, w')
    | Raise e => (Failed (Core e), w')
    end.

(** [print(line)] *)
Definition print (line : string) : action unit :=
  fun w =>
    (Done tt,
     {| files := files w; buffers := buffers w;
        stdout := (stdout w ++ [line])%list |}).

Definition with_files (fs : filesystem) (w : world) : world :=
  {| files := fs; buffers := buffers w; stdout := stdout w |}.

(** [with open(path, 'r', encoding='utf8') as f: f.read()] *)
Definition read_text (path : string) : action string :=
  fun w =>
    match find path (files w) with
    | Some f => (Done (data f), w)
    | None => (Failed (FileNotFoundError path), w)
    end.

End Os.

Notation "x <== m ;; k" := (Os.then_ m (fun x => k))
  (at level 61, m at next level, right associativity).

(** ** Writing and running the script *)

(** <<
    def make_executable(path):
        mode = os.stat(path).st_mode
        mode |= (mode & 0o444) >> 2  # copy R bits to X
        os.chmod(path, mode)
    >> *)
Definition make_executable (p : Os.platform) (path : string)
  : Os.action unit :=
  mode <== Os.stat p path ;;
  let mode := make_executable_mode mode in
  Os.chmod p path mode.

Definition write_script (p : Os.platform) (cloudbuild : CloudBuild)
    (contents : string) : Os.action unit :=
  _ <== Os.print ("Writing build script to " ++ output_script cloudbuild) ;;
  _ <== Os.open_write p (output_script cloudbuild) contents ;;
  make_executable p (output_script cloudbuild).

Definition local_cloudbuild (p : Os.platform) (args : Args.Namespace)
  : Os.action unit :=
  (* Load and parse cloudbuild.yaml *)
  cloudbuild_file <== Os.read_text (Args.config args) ;;
  raw_config <== (fun w => (Os.safe_load p cloudbuild_file, w)) ;;
  (* Determine configuration *)
  cloudbuild <== Os.of_result (get_cloudbuild raw_config args) ;;
  (* Create shell script *)
  contents <== Os.of_io (generate_script cloudbuild) ;;
  _ <== write_script p cloudbuild contents ;;
  (* Run shell script *)
  if run cloudbuild then
    let args := [Os.abspath p (output_script cloudbuild)] in
    Os.check_call p args
  else Os.ret tt.

(** ** Command line flags *)

(** The namespace [parser.parse_args] returns: [output_script] is
    [None] when the flag is not given. *)
Record ParsedFlags := {
  parsed_config : string;
  parsed_output_script : option string;
  parsed_run : bool;
}.

(** The end of [parse_args], after [parser.parse_args(argv[1:])]:
    <<
    if not args.output_script:
        args.output_script = args.config + "_local.sh"
    return args
    >> *)
Definition default_output_script (parsed : ParsedFlags) : Args.Namespace :=
  let given :=
    match parsed_output_script parsed with
    | Some s => truthy s
    | None => false
    end in
  {| Args.config := parsed_config parsed;
     Args.output_script :=
       if given
       then match parsed_output_script parsed with
            | Some s => s
            | None => EmptyString
            end
       else parsed_config parsed ++ "_local.sh";
     Args.run := parsed_run parsed |}.

(** ** More descriptions to compare the program with *)

(** The directory the shell makes of the working directory token: the
    workspace root for an empty [dir]; [dir] itself when it begins with
    the separator and needs no quoting; [dir] under the root otherwise. *)
Definition no_unsafe (s : string) : bool :=
  match Shlex.find_unsafe s with
  | None => true
  | Some _ => false
  end.

Definition directory_read (dir : string) : string :=
  if dir =? EmptyString then "/workspace"
  else if startswith dir "/" && no_unsafe dir then dir
  else "/workspace/" ++ dir.

(** The world when [write_script] comes to open the output path: the
    assembler has left its buffer, closed, and the line that names the
    path has been printed. *)
Definition assembled (path : string) (w : Os.world) : Os.world :=
  {| Os.files := Os.files w;
     Os.buffers := (Os.buffers w ++ [None])%list;
     Os.stdout :=
       (Os.stdout w ++ [("Writing build script to " ++ path)%string])%list |}.

(** ** A platform and a world to run the examples in *)

(** The valid document of [test_get_cloudbuild], decoded. *)
Definition two_steps : value :=
  VDict [("steps", VList [VDict [("name", VStr "step1")];
                          VDict [("name", VStr "step2")]])].

(** A platform for the examples: its parser answers with the given
    document, its current directory is [/src], its subprocesses succeed
    and change nothing, every path can be written and holds afterwards
    what was written, every file has the mode [0o100644] and changing a
    mode is accepted and forgotten. *)
Definition test_platform (decoded : value) : Os.platform :=
  {| Os.safe_load := fun _ => Os.Done decoded;
     Os.abspath := fun path => "/src/" ++ path;
     Os.check_call := fun _ w => (Os.Done tt, w);
     Os.open_write := fun path contents w =>
       (Os.Done tt,
        Os.with_files
          (Os.put path {| Os.st_mode := 33188; Os.data := contents |}
             (Os.files w)) w);
     Os.stat := fun _ w => (Os.Done 33188%Z, w);
     Os.chmod := fun _ _ w => (Os.Done tt, w) |}.

(** The same platform where [open] raises for every path. *)
Definition read_only_platform (decoded : value) : Os.platform :=
  {| Os.safe_load := fun _ => Os.Done decoded;
     Os.abspath := fun path => "/src/" ++ path;
     Os.check_call := fun _ w => (Os.Done tt, w);
     Os.open_write := fun path _ w =>
       (Os.Failed (Os.OSError "IsADirectoryError" path), w);
     Os.stat := fun _ w => (Os.Done 33188%Z, w);
     Os.chmod := fun _ _ w => (Os.Done tt, w) |}.

Definition test_world : Os.world :=
  {| Os.files :=
       [("some_config_file",
         {| Os.st_mode := 33188;
            Os.data := "steps:" ++ NL ++ "- name: step1" ++ NL
                       ++ "- name: step2" ++ NL |})];
     Os.buffers := [];
     Os.stdout := [] |}.

(** * Properties *)

(** ** Strings *)

Lemma append_empty_r (s : string) : s ++ EmptyString = s.
Proof. induction s as [|c r IH]; simpl; [reflexivity | now rewrite IH]. Qed.

Lemma append_str_cons (w : string) (c : ascii) (r : string) :
  (w ++ str c) ++ r = w ++ String c r.
Proof. induction w as [|d w IH]; simpl; [reflexivity | now rewrite IH]. Qed.

Lemma append_assoc (a b c : string) : (a ++ b) ++ c = a ++ (b ++ c).
Proof. induction a as [|d a IH]; simpl; [reflexivity | now rewrite IH]. Qed.

(** ** Quoting and reading back *)

Section QuoteRoundTrip.

Import Shlex Shell.

(** A safe character is an ordinary character for the shell. *)
Lemma safe_is_ordinary (c : ascii) :
  is_safe c = true ->
  is_blank c = false /\ Ascii.eqb c "'" = false
  /\ Ascii.eqb c dquote = false /\ Ascii.eqb c "\" = false
  /\ is_active c = false.
Proof.
  destruct c as [[] [] [] [] [] [] [] []]; vm_compute; intros H;
    first [discriminate H | repeat split].
Qed.

Lemma words_ordinary (c : ascii) (r : string) (cur : option string) :
  is_safe c = true ->
  words Unquoted cur (String c r) = words Unquoted (push cur c) r.
Proof.
  intros H. destruct (safe_is_ordinary c H) as (Hb & Hs & Hd & He & Ha).
  simpl. now rewrite Hb, Hs, Hd, He, Ha.
Qed.

Lemma inert_ordinary (c : ascii) (r : string) :
  is_safe c = true ->
  inert Unquoted (String c r) = inert Unquoted r.
Proof.
  intros H. destruct (safe_is_ordinary c H) as (Hb & Hs & Hd & He & Ha).
  simpl. now rewrite Hb, Hs, Hd, He, Ha.
Qed.

Lemma find_unsafe_none_cons (c : ascii) (r : string) :
  find_unsafe (String c r) = None ->
  is_safe c = true /\ find_unsafe r = None.
Proof.
  simpl. destruct (is_safe c); [now split | discriminate].
Qed.

Lemma inert_safe (s : string) :
  find_unsafe s = None -> inert Unquoted s = true.
Proof.
  induction s as [|c r IH]; intros H; [reflexivity|].
  apply find_unsafe_none_cons in H as [Hc Hr].
  rewrite (inert_ordinary c r Hc). auto.
Qed.

(** Between single quotes, the escaped text is read as the text. *)
Lemma words_escaped (s w rest : string) :
  words InSingle (Some w) (replace "'" squote_escape s ++ rest) =
  words InSingle (Some (w ++ s)) rest.
Proof.
  revert w. induction s as [|c r IH]; intros w.
  - simpl. now rewrite append_empty_r.
  - simpl replace. destruct (Ascii.eqb c "'") eqn:E.
    + apply Ascii.eqb_eq in E. subst c.
      change (words InSingle (Some (w ++ str "'"))
                (replace "'" squote_escape r ++ rest)
              = words InSingle (Some (w ++ String "'" r)) rest).
      rewrite IH. now rewrite append_str_cons.
    + change (String c (replace "'" squote_escape r) ++ rest)
        with (String c (replace "'" squote_escape r ++ rest)).
      simpl words. rewrite E. simpl push.
      rewrite IH. now rewrite append_str_cons.
Qed.

Lemma inert_escaped (s rest : string) :
  inert InSingle (replace "'" squote_escape s ++ rest) =
  inert InSingle rest.
Proof.
  induction s as [|c r IH]; [reflexivity|].
  simpl replace. destruct (Ascii.eqb c "'") eqn:E.
  - change (inert InSingle (replace "'" squote_escape r ++ rest)
            = inert InSingle rest).
    exact IH.
  - change (String c (replace "'" squote_escape r) ++ rest)
      with (String c (replace "'" squote_escape r ++ rest)).
    simpl inert. rewrite E. exact IH.
Qed.

Lemma words_safe_then (s w rest : string) :
  find_unsafe s = None ->
  words Unquoted (Some w) (s ++ rest) = words Unquoted (Some (w ++ s)) rest.
Proof.
  revert w. induction s as [|c r IH]; intros w H.
  - simpl. now rewrite append_empty_r.
  - apply find_unsafe_none_cons in H as [Hc Hr].
    change (String c r ++ rest) with (String c (r ++ rest)).
    rewrite (words_ordinary c _ _ Hc). simpl push.
    rewrite (IH _ Hr). now rewrite append_str_cons.
Qed.

(** A quoted string, whatever follows it, is read as the beginning of a
    word that holds the string. *)
Lemma words_quote_then (s rest : string) :
  words Unquoted None (quote s ++ rest) = words Unquoted (Some s) rest.
Proof.
  destruct s as [|c r]; [reflexivity|].
  unfold quote. destruct (find_unsafe (String c r)) eqn:U.
  - rewrite !append_assoc.
    change ("'" ++ replace "'" squote_escape (String c r) ++ "'" ++ rest)
      with (String "'"
              (replace "'" squote_escape (String c r) ++ String "'" rest)).
    change (words Unquoted None
              (String "'"
                 (replace "'" squote_escape (String c r) ++ String "'" rest)))
      with (words InSingle (Some EmptyString)
              (replace "'" squote_escape (String c r) ++ String "'" rest)).
    rewrite words_escaped. reflexivity.
  - destruct (find_unsafe_none_cons c r U) as [Hc Hr].
    change (String c r ++ rest) with (String c (r ++ rest)).
    rewrite (words_ordinary c _ _ Hc). simpl push.
    now rewrite (words_safe_then r _ rest Hr).
Qed.

Lemma split_quote (s : string) : split (quote s) = Some [s].
Proof.
  unfold split. rewrite <- (append_empty_r (quote s)).
  now rewrite words_quote_then.
Qed.

Lemma unquote_quote (s : string) : unquote (quote s) = Some s.
Proof. unfold unquote. now rewrite split_quote. Qed.

(** Quoted tokens joined by single spaces are read back as the strings
    that were quoted, one word each. *)
Lemma split_join_quote (l : list string) :
  split (str_join " " (map quote l)) = Some l.
Proof.
  induction l as [|a l IH]; [reflexivity|].
  destruct l as [|b l]; [apply split_quote|].
  change (str_join " " (map quote (a :: b :: l)))
    with (quote a ++ String " " (str_join " " (map quote (b :: l)))).
  unfold split in *. rewrite words_quote_then.
  change (words Unquoted (Some a)
            (String " " (str_join " " (map quote (b :: l)))))
    with (option_map (cons a)
            (words Unquoted None (str_join " " (map quote (b :: l))))).
  now rewrite IH.
Qed.

Lemma quote_inert (s : string) :
  no_unescaped_metacharacter (quote s) = true.
Proof.
  destruct s as [|c r]; [reflexivity|].
  unfold quote, no_unescaped_metacharacter.
  destruct (find_unsafe (String c r)) eqn:U.
  - change ("'" ++ replace "'" squote_escape (String c r) ++ "'")
      with (String "'" (replace "'" squote_escape (String c r) ++ "'")).
    change (inert Unquoted
              (String "'" (replace "'" squote_escape (String c r) ++ "'")))
      with (inert InSingle (replace "'" squote_escape (String c r) ++ "'")).
    rewrite inert_escaped. reflexivity.
  - now apply inert_safe.
Qed.

End QuoteRoundTrip.

(** The cases of the documentation of [shlex.quote] and of
    [test_generate_command]. *)
Example quote_empty : Shlex.quote EmptyString = "''".
Proof. reflexivity. Qed.

Example quote_plain : Shlex.quote "ENV1=value1" = "ENV1=value1".
Proof. reflexivity. Qed.

Example quote_space : Shlex.quote "a name" = "'a name'".
Proof. reflexivity. Qed.

Example quote_squote :
  Shlex.quote "$'b" = "'$'" ++ DQ ++ "'" ++ DQ ++ "'b'".
Proof. reflexivity. Qed.

Example unquote_squote : Shell.unquote (Shlex.quote "$'b") = Some "$'b".
Proof. reflexivity. Qed.

Example split_two :
  Shell.split ("docker  run 'a b'" ++ DQ ++ "c" ++ DQ) =
  Some ["docker"; "run"; "a bc"].
Proof. reflexivity. Qed.

Example quote_newline :
  Shlex.quote ("arg with " ++ NL ++ " newline")
  = "'arg with " ++ NL ++ " newline'".
Proof. reflexivity. Qed.

(** C1.  Reading back what [shlex.quote] wrote gives the string it was
    given, for every string; hence quoting the text read back gives the
    quoted text again; and the quoted text has no blank and no active
    shell character outside quotes. *)
Theorem quote_round_trip (s : string) :
  Shell.unquote (Shlex.quote s) = Some s
  /\ option_map Shlex.quote (Shell.unquote (Shlex.quote s))
     = Some (Shlex.quote s)
  /\ Shell.no_unescaped_metacharacter (Shlex.quote s) = true.
Proof.
  split; [apply unquote_quote|]. split; [|apply quote_inert].
  now rewrite unquote_quote.
Qed.

(** ** Command lowering *)

Lemma fold_extend_env (l : list string) (acc : list string) :
  fold_left extend_env l acc = (acc ++ flat_map env_flags l)%list.
Proof.
  revert acc. induction l as [|e l IH]; intros acc; simpl.
  - now rewrite app_nil_r.
  - rewrite IH. unfold extend_env. now rewrite <- app_assoc.
Qed.

(** Joining under the workspace root: a component that begins with the
    separator replaces the root, any other is put after [/workspace/]. *)
Lemma join_workspace (q : string) :
  Posixpath.join "/workspace" [q] =
  if startswith q "/" then q else "/workspace/" ++ q.
Proof.
  unfold Posixpath.join, Posixpath.join_step, Posixpath.sep. simpl fold_left.
  destruct (startswith q "/"); reflexivity.
Qed.

Lemma generate_command_tokens (step : Step) :
  generate_command step =
  (docker_prefix ++ [workdir_of step]
   ++ flat_map env_flags (env step)
   ++ [Shlex.quote (name step)]
   ++ map Shlex.quote (args step))%list.
Proof.
  unfold generate_command. rewrite fold_extend_env. reflexivity.
Qed.

Lemma workdir_flag (step : Step) :
  flag_value "--workdir" (generate_command step) = Some (workdir_of step).
Proof. rewrite generate_command_tokens. reflexivity. Qed.

(** Quoted flags, name and arguments, joined by single spaces, are read
    back as they are in the step. *)
Lemma user_tokens_read_back (step : Step) :
  Shell.split
    (str_join " "
       (flat_map env_flags (env step)
        ++ [Shlex.quote (name step)]
        ++ map Shlex.quote (args step))%list)
  = Some (flat_map (fun e => ["--env"; e]) (env step)
          ++ [name step] ++ args step)%list.
Proof.
  assert (E : forall l,
             flat_map env_flags l
             = map Shlex.quote (flat_map (fun e => ["--env"; e]) l)).
  { induction l as [|e l IH]; [reflexivity|].
    cbn [flat_map app map]. now rewrite IH. }
  rewrite E.
  change [Shlex.quote (name step)] with (map Shlex.quote [name step]).
  rewrite <- !map_app. apply split_join_quote.
Qed.

(** X3.  What the shell reads from the command [generate_command]
    returns, after its first ten tokens (the fixed prefix and the working
    directory), joined by single spaces: [--env] and the entry for every
    [env] entry, then the image name, then the arguments, each one word
    and each as it is in the step, whatever characters they hold. *)
Theorem command_read_back (step : Step) :
  Shell.split (str_join " " (skipn 10 (generate_command step)))
  = Some (flat_map (fun e => ["--env"; e]) (env step)
          ++ [name step] ++ args step)%list.
Proof.
  rewrite generate_command_tokens.
  change (skipn 10
            (docker_prefix ++ [workdir_of step]
             ++ flat_map env_flags (env step)
             ++ [Shlex.quote (name step)]
             ++ map Shlex.quote (args step))%list)
    with (flat_map env_flags (env step)
          ++ [Shlex.quote (name step)]
          ++ map Shlex.quote (args step))%list.
  apply user_tokens_read_back.
Qed.

Example command_read_back_newline :
  Shell.split
    (str_join " "
       (skipn 10
          (generate_command
             {| args := ["arg with " ++ NL ++ " newline"; "it's; $HOME"];
                dir_ := EmptyString;
                env := ["env with space"];
                name := "a name" |})))
  = Some ["--env"; "env with space"; "a name";
          "arg with " ++ NL ++ " newline"; "it's; $HOME"].
Proof. reflexivity. Qed.

(** A quoted form that needed quotes begins with a single quote. *)
Lemma quote_unsafe (s : string) :
  Shlex.find_unsafe s <> None ->
  Shlex.quote s = "'" ++ Shlex.replace "'" Shlex.squote_escape s ++ "'".
Proof.
  intros H. destruct s as [|c r]; [now elim H|].
  unfold Shlex.quote. destruct (Shlex.find_unsafe (String c r)); [reflexivity|].
  now elim H.
Qed.

Lemma quote_safe (s : string) :
  s <> EmptyString -> Shlex.find_unsafe s = None -> Shlex.quote s = s.
Proof.
  intros Hne H. destruct s as [|c r]; [now elim Hne|].
  unfold Shlex.quote. now rewrite H.
Qed.

Lemma truthy_true (s : string) : truthy s = true <-> s <> EmptyString.
Proof.
  unfold truthy. destruct (String.eqb_spec s EmptyString); simpl; split;
    congruence.
Qed.

(** C3.  The working directory flag is always there.  With an empty
    [dir] its value is exactly [/workspace]; with a non-empty [dir] it is
    [/workspace] joined (by [os.path.join]) with the quoted [dir]; and
    [dir = 'dir/ with space/'] gives [/workspace/'dir/ with space/']. *)
Theorem workdir_value (step : Step) :
  flag_value "--workdir" (generate_command step)
  = Some (if dir_ step =? EmptyString
          then "/workspace"
          else Posixpath.join "/workspace" [Shlex.quote (dir_ step)])
  /\ flag_value "--workdir"
       (generate_command
          {| args := args step; dir_ := "dir/ with space/";
             env := env step; name := name step |})
     = Some "/workspace/'dir/ with space/'".
Proof.
  split.
  - rewrite workdir_flag. unfold workdir_of, truthy.
    now destruct (dir_ step =? EmptyString).
  - rewrite workdir_flag. reflexivity.
Qed.

(** C10.  A non-empty [dir] that begins with the separator and has only
    characters that [shlex.quote] leaves alone is its own quoted form,
    and the join drops [/workspace]: the working directory is [dir]
    itself, outside the workspace root. *)
Theorem workdir_escapes_root (step : Step) :
  dir_ step <> EmptyString ->
  startswith (dir_ step) "/" = true ->
  Shlex.find_unsafe (dir_ step) = None ->
  Shlex.quote (dir_ step) = dir_ step
  /\ flag_value "--workdir" (generate_command step) = Some (dir_ step).
Proof.
  intros Hne Hs Hu. pose proof (quote_safe _ Hne Hu) as Q.
  split; [exact Q|].
  rewrite workdir_flag. unfold workdir_of.
  apply truthy_true in Hne. rewrite Hne, join_workspace, Q, Hs. reflexivity.
Qed.

Lemma workdir_escapes_root_witness :
  flag_value "--workdir" (generate_command (step_with_dir "/etc"))
  = Some "/etc".
Proof.
  apply (workdir_escapes_root (step_with_dir "/etc"));
    [discriminate | reflexivity | reflexivity].
Defined.

Example generate_command_base :
  generate_command base_step =
  [ "docker"; "run";
    "--volume"; "/var/run/docker.sock:/var/run/docker.sock";
    "--volume"; "/root/.docker:/root/.docker";
    "--volume"; "${HOST_WORKSPACE}:/workspace";
    "--workdir"; "/workspace";
    "--env"; "ENV1=value1"; "--env"; "ENV2=value2";
    "aname"; "arg1"; "arg2" ].
Proof. reflexivity. Qed.

Example generate_command_adir :
  In "/workspace/adir" (generate_command (step_with_dir "adir")).
Proof. vm_compute. tauto. Qed.

(** C6.  The tokens of a command, in order: the fixed [docker run]
    prefix with the three volume mounts and the working directory flag
    with its value; for every [env] entry, in order, [--env] and the
    quoted entry; the quoted image name, once; every element of [args],
    quoted, in order. *)
Theorem generate_command_order (step : Step) :
  generate_command step =
  ([ "docker"; "run";
     "--volume"; "/var/run/docker.sock:/var/run/docker.sock";
     "--volume"; "/root/.docker:/root/.docker";
     "--volume"; "${HOST_WORKSPACE}:/workspace";
     "--workdir"; workdir_of step ]
   ++ flat_map (fun e => ["--env"; Shlex.quote e]) (env step)
   ++ [Shlex.quote (name step)]
   ++ map Shlex.quote (args step))%list
  /\ length (generate_command step)
     = 11 + 2 * length (env step) + length (args step).
Proof.
  rewrite generate_command_tokens. split; [reflexivity|].
  assert (L : forall l, length (flat_map env_flags l) = 2 * length l).
  { induction l as [|e l IH]; simpl; [reflexivity | rewrite IH; lia]. }
  cbn [docker_prefix app length]. rewrite length_app, L.
  cbn [length]. rewrite length_map. lia.
Qed.

(** ** Script assembly *)

Section Stores.

Import StringIO.

Lemma nth_error_last {A} (h : list A) (x : A) :
  nth_error (h ++ [x])%list (length h) = Some x.
Proof. induction h as [|y h IH]; simpl; [reflexivity | exact IH]. Qed.

Lemma set_nth_last {A} (h : list A) (x y : A) :
  set_nth (length h) y (h ++ [x])%list = (h ++ [y])%list.
Proof. induction h as [|z h IH]; simpl; [reflexivity | now rewrite IH]. Qed.

(** Writing to the buffer made last appends to its text. *)
Lemma run_write (h : store) (buffer s : string) :
  write (length h) s (h ++ [Some buffer])%list =
  (OK (String.length s), (h ++ [Some (buffer ++ s)%string])%list).
Proof.
  unfold write. now rewrite nth_error_last, set_nth_last.
Qed.

Lemma run_getvalue (h : store) (buffer : string) :
  getvalue (length h) (h ++ [Some buffer])%list =
  (OK buffer, (h ++ [Some buffer])%list).
Proof. unfold getvalue. now rewrite nth_error_last. Qed.

Lemma run_close (h : store) (buffer : string) :
  close (length h) (h ++ [Some buffer])%list = (OK tt, (h ++ [None])%list).
Proof. unfold close. now rewrite set_nth_last. Qed.

Lemma concat_cons (x : string) (xs : list string) :
  String.concat EmptyString (x :: xs) = x ++ String.concat EmptyString xs.
Proof.
  destruct xs; simpl; [now rewrite append_empty_r | reflexivity].
Qed.

(** The loop of writes appends the lines in the order of the list. *)
Lemma run_for_each {A} (line : A -> string) (l : list A)
    (h : store) (buffer : string) :
  for_each l (fun a => write (length h) (line a))
    (h ++ [Some buffer])%list =
  (OK tt,
   (h ++ [Some (buffer ++ String.concat EmptyString (map line l))%string])%list).
Proof.
  revert buffer. induction l as [|a l IH]; intros buffer.
  - simpl. unfold ret. now rewrite append_empty_r.
  - cbn [for_each]. unfold then_ at 1. rewrite run_write, IH.
    cbn [map]. now rewrite concat_cons, append_assoc.
Qed.

Lemma concat_app (l1 l2 : list string) :
  String.concat EmptyString (l1 ++ l2)%list =
  String.concat EmptyString l1 ++ String.concat EmptyString l2.
Proof.
  induction l1 as [|x l1 IH]; [reflexivity|].
  cbn [app]. now rewrite !concat_cons, IH, append_assoc.
Qed.

Lemma for_each_map {A B C} (g : A -> B) (body : B -> io C) (l : list A) :
  for_each (map g l) body = for_each l (fun a => body (g a)).
Proof.
  induction l as [|a l IH]; simpl; [reflexivity | now rewrite IH].
Qed.

End Stores.

(** One run of the assembler, from any store: the text it returns and
    the store it leaves, where its buffer is closed. *)
Lemma generate_script_run (cloudbuild : CloudBuild) (h : StringIO.store) :
  generate_script cloudbuild h =
  (OK (script_text (steps cloudbuild)), (h ++ [None])%list).
Proof.
  unfold generate_script, script_text.
  generalize BUILD_SCRIPT_HEADER, BUILD_SCRIPT_FOOTER. intros header footer.
  unfold StringIO.then_ at 1. unfold StringIO.new.
  unfold StringIO.then_ at 1. rewrite run_write.
  unfold StringIO.then_ at 1.
  rewrite for_each_map, (run_for_each (fun step => command_line step)).
  unfold StringIO.then_ at 1. rewrite run_write.
  unfold StringIO.then_ at 1. rewrite run_getvalue.
  unfold StringIO.then_ at 1. rewrite run_close.
  unfold StringIO.ret. cbn [append]. now rewrite append_assoc.
Qed.

(** C7.  From any store, the assembler returns the header, then for
    every step of the recipe, in the order of the recipe, the tokens of
    its command joined by single spaces and followed by a blank line,
    then the footer; and the text of a recipe made of two parts is the
    header, the lines of the first part, the lines of the second part and
    the footer. *)
Theorem generate_script_text (cloudbuild : CloudBuild) (h : StringIO.store) :
  fst (generate_script cloudbuild h)
  = OK (BUILD_SCRIPT_HEADER
        ++ String.concat EmptyString
             (map (fun step =>
                     str_join " " (generate_command step) ++ NL ++ NL)
                  (steps cloudbuild))
        ++ BUILD_SCRIPT_FOOTER)
  /\ forall first second,
       steps cloudbuild = (first ++ second)%list ->
       fst (generate_script cloudbuild h)
       = OK (BUILD_SCRIPT_HEADER
             ++ String.concat EmptyString (map command_line first)
             ++ String.concat EmptyString (map command_line second)
             ++ BUILD_SCRIPT_FOOTER).
Proof.
  rewrite generate_script_run. split; [reflexivity|].
  intros first second E. rewrite E. unfold script_text.
  now rewrite map_app, concat_app, append_assoc.
Qed.

Lemma generate_script_text_witness :
  fst (generate_script golden_recipe [])
  = OK (BUILD_SCRIPT_HEADER
        ++ String.concat EmptyString
             (map command_line (firstn 1 (steps golden_recipe)))
        ++ String.concat EmptyString
             (map command_line (skipn 1 (steps golden_recipe)))
        ++ BUILD_SCRIPT_FOOTER).
Proof.
  apply (proj2 (generate_script_text golden_recipe [])). reflexivity.
Defined.

(** C8.  Assembling the same recipe twice gives the same text: the
    second call, which starts from the store the first one left, returns
    what the first returned; and the text does not depend on the store
    the assembler starts from. *)
Theorem generate_script_deterministic (cloudbuild : CloudBuild)
    (h : StringIO.store) :
  fst (generate_script cloudbuild (snd (generate_script cloudbuild h)))
  = fst (generate_script cloudbuild h)
  /\ forall h' : StringIO.store,
       fst (generate_script cloudbuild h') = fst (generate_script cloudbuild h).
Proof.
  split; [|intros h']; now rewrite !generate_script_run.
Qed.

(** ** Lowering cannot fail on a valid step *)

Section DynamicLowering.

Lemma dynamic_quote_str (s : string) :
  Dynamic.quote (VStr s) = OK (Shlex.quote s).
Proof. destruct s; reflexivity. Qed.

Lemma dynamic_quote_all (l : list string) :
  comprehension Dynamic.quote (map VStr l) = OK (map Shlex.quote l).
Proof.
  induction l as [|s l IH]; [reflexivity|].
  cbn [map comprehension]. rewrite dynamic_quote_str, IH. reflexivity.
Qed.

Lemma dynamic_env_loop (l : list string) (acc : list string) :
  Dynamic.for_loop
    (fun quoted_env e =>
       q <- Dynamic.quote e ;; OK (quoted_env ++ ["--env"; q])%list)
    (map VStr l) acc
  = OK (fold_left extend_env l acc).
Proof.
  revert acc. induction l as [|s l IH]; intros acc; [reflexivity|].
  cbn [map Dynamic.for_loop fold_left]. rewrite dynamic_quote_str.
  cbn [bind]. apply IH.
Qed.

Lemma dynamic_truthy_str (s : string) :
  Dynamic.truthy (VStr s) = truthy s.
Proof. reflexivity. Qed.

(** On the objects of a validated step, the dynamic reading returns
    the tokens of the typed one. *)
Lemma dynamic_generate_command (step : Step) :
  Dynamic.generate_command (as_objects step) = OK (generate_command step).
Proof.
  unfold Dynamic.generate_command, generate_command, as_objects.
  cbn [Dynamic.args Dynamic.env Dynamic.name Dynamic.dir_ Dynamic.iterate
       bind].
  rewrite dynamic_quote_all. cbn [bind].
  rewrite dynamic_env_loop. cbn [bind].
  rewrite !dynamic_quote_str. cbn [bind].
  rewrite dynamic_truthy_str.
  destruct (truthy (dir_ step)); reflexivity.
Qed.

Lemma str_list_is_map (l : list value) :
  forallb Dynamic.is_str l = true -> exists ss, l = map VStr ss.
Proof.
  induction l as [|v l IH]; intros H.
  - now exists [].
  - cbn [forallb] in H. apply andb_true_iff in H as [Hv Hl].
    destruct (IH Hl) as [ss ->].
    destruct v as [s| | |]; try discriminate Hv.
    now exists (s :: ss).
Qed.

Lemma valid_is_step (objects : Dynamic.Step) :
  Dynamic.valid objects = true -> exists step, objects = as_objects step.
Proof.
  destruct objects as [a d e n]. unfold Dynamic.valid.
  cbn [Dynamic.args Dynamic.env Dynamic.name Dynamic.dir_].
  intros H. repeat (apply andb_true_iff in H as [H ?]).
  destruct a as [| |la|]; try discriminate.
  destruct e as [| |le|]; try discriminate.
  destruct d as [sd| | |]; try discriminate.
  destruct n as [sn| | |]; try discriminate.
  cbn [Dynamic.is_str_list] in *.
  destruct (str_list_is_map la) as [sa ->]; [assumption|].
  destruct (str_list_is_map le) as [se ->]; [assumption|].
  now exists {| args := sa; dir_ := sd; env := se; name := sn |}.
Qed.

End DynamicLowering.

(** C9.  On a structurally valid step (a string for the name and for the
    directory, lists of strings for the arguments and the environment)
    command lowering returns a token list: no operation in it raises.
    The tokens are those of [generate_command] on the step. *)
Theorem generate_command_total (objects : Dynamic.Step) :
  Dynamic.valid objects = true ->
  exists step,
    objects = as_objects step
    /\ Dynamic.generate_command objects = OK (generate_command step).
Proof.
  intros V. destruct (valid_is_step objects V) as [step ->].
  exists step. split; [reflexivity | apply dynamic_generate_command].
Qed.

Lemma generate_command_total_witness :
  exists step,
    as_objects base_step = as_objects step
    /\ Dynamic.generate_command (as_objects base_step)
       = OK (generate_command step).
Proof.
  apply (generate_command_total (as_objects base_step)). reflexivity.
Defined.

(** Without validity the lowering can raise: an integer is not
    iterable. *)
Example generate_command_invalid :
  Dynamic.generate_command
    {| Dynamic.args := VInt 3; Dynamic.dir_ := VStr "adir";
       Dynamic.env := VList []; Dynamic.name := VStr "aname" |}
  = Raise TypeError.
Proof. reflexivity. Qed.

(** ** Validation *)

Lemma raises_bind {A B} (r : result A) (k : A -> result B) :
  raises_ValueError r -> raises_ValueError (bind r k).
Proof. intros [msg ->]. now exists msg. Qed.

Lemma OK_does_not_raise {A} (a : A) : ~ raises_ValueError (OK a).
Proof. intros [msg H]. discriminate H. Qed.

(** The elements of a sequence, fetched by index as [get_step] does. *)
Lemma elements_accepted (pre suf : list value) :
  forallb scalar suf = true ->
  comprehension
    (fun index => get_field_value (VList (pre ++ suf)) (Index index) Str)
    (seq (length pre) (length suf))
  = OK (map string_form suf).
Proof.
  revert pre. induction suf as [|v suf IH]; intros pre H; [reflexivity|].
  cbn [forallb] in H. apply andb_true_iff in H as [Hv Hs].
  cbn [length seq comprehension map].
  assert (L : lookup (VList (pre ++ v :: suf)) (Index (length pre)) = Some v).
  { cbn [lookup]. rewrite nth_error_app2, Nat.sub_diag; [reflexivity | lia]. }
  assert (E : get_field_value (VList (pre ++ v :: suf)) (Index (length pre)) Str
              = OK (string_form v)).
  { unfold get_field_value. rewrite L.
    destruct v; try discriminate Hv; reflexivity. }
  rewrite E. cbn [bind].
  specialize (IH (pre ++ [v])%list Hs).
  rewrite <- app_assoc, length_app, Nat.add_1_r in IH. cbn [app] in IH.
  now rewrite IH.
Qed.

Lemma elements_rejected (pre suf : list value) :
  forallb scalar suf = false ->
  raises_ValueError
    (comprehension
       (fun index => get_field_value (VList (pre ++ suf)) (Index index) Str)
       (seq (length pre) (length suf))).
Proof.
  revert pre. induction suf as [|v suf IH]; intros pre H; [discriminate H|].
  cbn [forallb] in H. cbn [length seq comprehension].
  assert (L : lookup (VList (pre ++ v :: suf)) (Index (length pre)) = Some v).
  { cbn [lookup]. rewrite nth_error_app2, Nat.sub_diag; [reflexivity | lia]. }
  unfold get_field_value at 1. rewrite L.
  destruct v as [s|n|l|d]; cbn [scalar andb] in H.
  - cbn [bind]. apply raises_bind.
    specialize (IH (pre ++ [VStr s])%list H).
    rewrite <- app_assoc, length_app, Nat.add_1_r in IH. exact IH.
  - cbn [bind]. apply raises_bind.
    specialize (IH (pre ++ [VInt n])%list H).
    rewrite <- app_assoc, length_app, Nat.add_1_r in IH. exact IH.
  - eexists. reflexivity.
  - eexists. reflexivity.
Qed.

Section Fields.

Variable d : list (string * value).

Lemma string_field_accepted (f : string) (k : string -> result Step) :
  accepted_as_string (assoc f d) = true ->
  bind (get_field_value (VDict d) (Field f) Str) k
  = k (string_of_field (assoc f d)).
Proof.
  unfold get_field_value. cbn [lookup].
  destruct (assoc f d) as [[s|n|l|m]|]; cbn; intros H;
    first [discriminate H | reflexivity].
Qed.

Lemma string_field_rejected (f : string) (k : string -> result Step) :
  accepted_as_string (assoc f d) = false ->
  raises_ValueError (bind (get_field_value (VDict d) (Field f) Str) k).
Proof.
  unfold get_field_value. cbn [lookup].
  destruct (assoc f d) as [[s|n|l|m]|]; cbn; intros H;
    first [discriminate H | eexists; reflexivity].
Qed.

Lemma strings_field_accepted (f : string) (k : list string -> result Step) :
  accepted_as_strings (assoc f d) = true ->
  (raw <- get_field_value (VDict d) (Field f) List ;;
   xs <- comprehension
           (fun index => get_field_value (VList raw) (Index index) Str)
           (seq 0 (length raw)) ;;
   k xs)
  = k (strings_of_field (assoc f d)).
Proof.
  unfold get_field_value at 1. cbn [lookup].
  destruct (assoc f d) as [[s|n|l|m]|]; cbn [accepted_as_strings];
    intros H; try discriminate H.
  - cbn [bind strings_of_field].
    pose proof (elements_accepted [] l H) as E. cbn [app length] in E.
    now rewrite E.
  - reflexivity.
Qed.

Lemma strings_field_rejected (f : string) (k : list string -> result Step) :
  accepted_as_strings (assoc f d) = false ->
  raises_ValueError
    (raw <- get_field_value (VDict d) (Field f) List ;;
     xs <- comprehension
             (fun index => get_field_value (VList raw) (Index index) Str)
             (seq 0 (length raw)) ;;
     k xs).
Proof.
  unfold get_field_value at 1. cbn [lookup].
  destruct (assoc f d) as [[s|n|l|m]|]; cbn [accepted_as_strings];
    intros H; try discriminate H; try (eexists; reflexivity).
  cbn [bind]. apply raises_bind.
  pose proof (elements_rejected [] l H) as E. cbn [app length] in E.
  exact E.
Qed.

End Fields.

(** C5.  A step mapping is accepted exactly when each of [args] and
    [env] is absent or a sequence of scalars and each of [dir] and [name]
    is absent or a string.  Then the step has, for an absent field, the
    empty string or the empty sequence, for [dir] and [name] the string
    given, and for [args] and [env] the elements given, in order, a scalar
    that is not a string (an integer) in its string form.  Otherwise (a
    field of the wrong type, or an element that is a list or a mapping) a
    [ValueError] is raised. *)
Theorem get_step_fields (d : list (string * value)) :
  if accepted_step d
  then get_step (VDict d) = OK (step_of_fields d)
  else raises_ValueError (get_step (VDict d)).
Proof.
  unfold accepted_step, step_of_fields, get_step. cbn [is_dict negb].
  destruct (accepted_as_strings (assoc "args" d)) eqn:A;
    [rewrite (strings_field_accepted d "args" _ A)
    | exact (strings_field_rejected d "args" _ A)].
  destruct (accepted_as_string (assoc "dir" d)) eqn:D;
    [rewrite (string_field_accepted d "dir" _ D)
    | exact (string_field_rejected d "dir" _ D)].
  destruct (accepted_as_strings (assoc "env" d)) eqn:E;
    [rewrite (strings_field_accepted d "env" _ E)
    | exact (strings_field_rejected d "env" _ E)].
  destruct (accepted_as_string (assoc "name" d)) eqn:N;
    [rewrite (string_field_accepted d "name" _ N)
    | exact (string_field_rejected d "name" _ N)].
  reflexivity.
Qed.

Example get_step_integer_name :
  get_step (VDict [("name", VInt 2)])
  = Raise (ValueError (FieldMismatch (Field "name") TStr TInt)).
Proof. reflexivity. Qed.

Example get_step_integer_element :
  get_step (VDict [("env", VList [VInt 2])])
  = OK {| args := []; dir_ := EmptyString; env := ["2"];
          name := EmptyString |}.
Proof. reflexivity. Qed.

(** The cases of [test_get_step]. *)
Example get_step_empty :
  get_step (VDict [])
  = OK {| args := []; dir_ := EmptyString; env := []; name := EmptyString |}.
Proof. reflexivity. Qed.

Example get_step_full :
  get_step (VDict full_step)
  = OK {| args := ["arg1"; "2"; "arg3 with " ++ NL ++ " newline"];
          dir_ := "adir";
          env := ["ENV1=value1"; "ENV2=space in value2"];
          name := "aname" |}.
Proof. reflexivity. Qed.

Example get_step_invalid :
  Forall (fun raw_step => raises_ValueError (get_step raw_step))
    [ VList [];
      VDict [("args", VStr "not_a_list")];
      VDict [("args", VList [VList []])];
      VDict [("env", VStr "not_a_list")];
      VDict [("env", VList [VDict []])];
      VDict [("dir", VDict [])];
      VDict [("name", VList [])] ].
Proof. repeat constructor; eexists; reflexivity. Qed.

(** C4, as stated, fails: a document without [steps] and a document
    whose [steps] is the empty list fail with one and the same message,
    ['No steps defined in some_config_file']. *)
Lemma missing_and_empty_steps_same_message :
  get_cloudbuild (VDict [("foo", VStr "bar")]) test_flags
  = Raise (ValueError (NoStepsDefined "some_config_file"))
  /\ get_cloudbuild (VDict [("steps", VList [])]) test_flags
     = Raise (ValueError (NoStepsDefined "some_config_file"))
  /\ get_cloudbuild (VDict [("foo", VStr "bar")]) test_flags
     = get_cloudbuild (VDict [("steps", VList [])]) test_flags.
Proof. repeat split. Qed.

(** C4, amended.  Validation of a mapping raises [ValueError] when
    [steps] is absent, when it is not a sequence and when it is the empty
    sequence.  A [steps] of the wrong type has a message of its own, which
    tells the type expected and the type found; an absent [steps] and an
    empty one have the same message, 'No steps defined in' followed by
    the name of the configuration file.  A non-empty sequence goes on to
    the validation of its steps. *)
Theorem steps_must_be_defined (d : list (string * value))
    (flags : Args.Namespace) :
  match assoc "steps" d with
  | None | Some (VList []) =>
      get_cloudbuild (VDict d) flags
      = Raise (ValueError (NoStepsDefined (Args.config flags)))
  | Some (VList (v :: l)) =>
      get_cloudbuild (VDict d) flags
      = (steps <- comprehension get_step (v :: l) ;;
         OK {| output_script := Args.output_script flags;
               run := Args.run flags;
               steps := steps |})
  | Some v =>
      get_cloudbuild (VDict d) flags
      = Raise (ValueError (FieldMismatch (Field "steps") TList (type_of v)))
      /\ FieldMismatch (Field "steps") TList (type_of v)
         <> NoStepsDefined (Args.config flags)
  end.
Proof.
  unfold get_cloudbuild, get_field_value. cbn [is_dict negb lookup].
  destruct (assoc "steps" d) as [[s|n|[|v l]|m]|]; cbn [bind];
    first [reflexivity | split; [reflexivity | discriminate]].
Qed.

(** The cases of [test_get_cloudbuild]. *)
Example get_cloudbuild_valid :
  option_map (fun c => length (steps c))
    match get_cloudbuild
            (VDict [("steps", VList [VDict [("name", VStr "step1")];
                                     VDict [("name", VStr "step2")]])])
            test_flags with
    | OK c => Some c
    | Raise _ => None
    end
  = Some 2.
Proof. reflexivity. Qed.

Example get_cloudbuild_invalid :
  Forall (fun raw_config =>
            raises_ValueError (get_cloudbuild raw_config test_flags))
    [ VDict [("foo", VStr "bar")];
      VDict [("steps", VStr "astring")] ].
Proof. repeat constructor; eexists; reflexivity. Qed.


(** * Further properties of the program *)

(** ** File modes *)

Section Modes.

Local Open Scope Z_scope.

Lemma execute_bit_cases (n : Z) :
  is_execute_bit n = true <-> n = 0 \/ n = 3 \/ n = 6.
Proof.
  unfold is_execute_bit. rewrite !orb_true_iff, !Z.eqb_eq. tauto.
Qed.

(** The mask [0o444] holds the three read bits. *)
Lemma read_mask_bits (n : Z) :
  0 <= n -> Z.testbit 292 (n + 2) = is_execute_bit n.
Proof.
  intros Hn. destruct (Z_lt_le_dec n 7) as [Hlt|Hge].
  - assert (C : n = 0 \/ n = 1 \/ n = 2 \/ n = 3 \/ n = 4 \/ n = 5 \/ n = 6)
      by lia.
    destruct C as [->|[->|[->|[->|[->|[->| ->]]]]]]; reflexivity.
  - rewrite Z.bits_above_log2; [|lia|simpl; lia].
    symmetry. apply not_true_is_false. rewrite execute_bit_cases. lia.
Qed.

Lemma mode_bits (mode n : Z) :
  0 <= n ->
  Z.testbit (make_executable_mode mode) n
  = Z.testbit mode n || (is_execute_bit n && Z.testbit mode (n + 2)).
Proof.
  intros Hn. unfold make_executable_mode.
  rewrite Z.lor_spec, Z.shiftr_spec, Z.land_spec, read_mask_bits by assumption.
  now rewrite (andb_comm (Z.testbit mode (n + 2))).
Qed.

Lemma execute_bit_not_read_bit (n : Z) :
  is_execute_bit n = true -> is_execute_bit (n + 2) = false.
Proof.
  rewrite execute_bit_cases. intros H.
  apply not_true_is_false. rewrite execute_bit_cases. lia.
Qed.

End Modes.

(** X1.  The mode [make_executable] computes has every bit of the old
    mode, and an execute bit is set in it exactly when it was set before
    or the read bit of the same class (two positions higher) was: nothing
    but the three execute bits can change. *)
Theorem make_executable_mode_bits (mode n : Z) :
  (0 <= n)%Z ->
  Z.testbit (make_executable_mode mode) n
  = Z.testbit mode n
    || (is_execute_bit n && Z.testbit mode (n + 2)).
Proof. apply mode_bits. Qed.

Lemma make_executable_mode_bits_witness :
  Z.testbit (make_executable_mode 420) 6
  = Z.testbit 420 6 || (is_execute_bit 6 && Z.testbit 420 (6 + 2)).
Proof. apply (make_executable_mode_bits 420 6). lia. Defined.

(** X2.  Making a mode executable twice is making it executable once,
    and no permission is ever taken away: every bit of the old mode is in
    the new one. *)
Theorem make_executable_mode_idempotent (mode : Z) :
  make_executable_mode (make_executable_mode mode) = make_executable_mode mode
  /\ Z.land mode (make_executable_mode mode) = mode.
Proof.
  split; apply Z.bits_inj'; intros n Hn.
  - rewrite (mode_bits (make_executable_mode mode)) by assumption.
    rewrite (mode_bits mode (n + 2)) by lia.
    rewrite mode_bits by assumption.
    destruct (is_execute_bit n) eqn:E; cbn [andb].
    + rewrite (execute_bit_not_read_bit n E). cbn [andb].
      rewrite orb_false_r. now destruct (Z.testbit mode n), (Z.testbit mode (n + 2)).
    + now rewrite !orb_false_r.
  - rewrite Z.land_spec, mode_bits by assumption.
    now destruct (Z.testbit mode n).
Qed.

Example mode_644 : make_executable_mode 420 = 493%Z.   (* 0o644, 0o755 *)
Proof. reflexivity. Qed.

Example mode_600 : make_executable_mode 384 = 448%Z.   (* 0o600, 0o700 *)
Proof. reflexivity. Qed.

Example mode_regular_file :
  make_executable_mode 33184 = 33256%Z.   (* 0o100640, 0o100750 *)
Proof. reflexivity. Qed.

Example mode_write_only : make_executable_mode 146 = 146%Z.   (* 0o222 *)
Proof. reflexivity. Qed.

(** ** The working directory as the shell reads it *)

Section WorkdirReadBack.

Import Shlex Shell.

Lemma words_quote_after (s w rest : string) :
  words Unquoted (Some w) (quote s ++ rest)
  = words Unquoted (Some (w ++ s)) rest.
Proof.
  destruct s as [|c r].
  - cbn. now rewrite append_empty_r.
  - unfold quote. destruct (find_unsafe (String c r)) eqn:U.
    + rewrite !append_assoc.
      change (words Unquoted (Some w)
                ("'" ++ replace "'" squote_escape (String c r) ++ "'" ++ rest))
        with (words InSingle (Some w)
                (replace "'" squote_escape (String c r) ++ String "'" rest)).
      rewrite words_escaped. reflexivity.
    + now apply words_safe_then.
Qed.

Lemma unquote_under_root (s : string) :
  unquote ("/workspace/" ++ quote s) = Some ("/workspace/" ++ s).
Proof.
  unfold unquote, split.
  change (words Unquoted None ("/workspace/" ++ quote s))
    with (words Unquoted (Some "/workspace/") (quote s)).
  rewrite <- (append_empty_r (quote s)), words_quote_after. reflexivity.
Qed.

(** The quoted form begins with the separator exactly when the string
    does and needs no quoting. *)
Lemma quote_starts_with_sep (s : string) :
  s <> EmptyString ->
  startswith (quote s) "/" = startswith s "/" && no_unsafe s.
Proof.
  intros Hne. unfold no_unsafe. destruct (find_unsafe s) eqn:U.
  - rewrite quote_unsafe by congruence. now rewrite andb_false_r.
  - rewrite (quote_safe s Hne U). now rewrite andb_true_r.
Qed.

End WorkdirReadBack.

(** X4.  The working directory token, read by the shell, is the
    workspace root for an empty [dir]; it is [/workspace/] followed by
    [dir], character for character, for every other [dir] but one kind: a
    [dir] that begins with the separator and has no character that needs
    quoting is read as [dir] itself. *)
Theorem workdir_read_back (step : Step) :
  exists token,
    flag_value "--workdir" (generate_command step) = Some token
    /\ Shell.unquote token = Some (directory_read (dir_ step)).
Proof.
  exists (workdir_of step). split; [apply workdir_flag|].
  unfold workdir_of, directory_read, truthy.
  destruct (String.eqb_spec (dir_ step) EmptyString) as [E|Hne]; cbn [negb].
  - reflexivity.
  - rewrite join_workspace, (quote_starts_with_sep _ Hne).
    destruct (startswith (dir_ step) "/" && no_unsafe (dir_ step)).
    + apply unquote_quote.
    + apply unquote_under_root.
Qed.




Example workdir_with_single_quote :
  flag_value "--workdir" (generate_command (step_with_dir "it's"))
  = Some ("/workspace/'it'" ++ DQ ++ "'" ++ DQ ++ "'s'")
  /\ Shell.unquote ("/workspace/'it'" ++ DQ ++ "'" ++ DQ ++ "'s'")
     = Some "/workspace/it's".
Proof. split; reflexivity. Qed.

Example workdir_read_back_space :
  Shell.unquote "/workspace/'dir/ with space/'"
  = Some "/workspace/dir/ with space/".
Proof. reflexivity. Qed.

Example workdir_read_back_absolute_with_space :
  flag_value "--workdir" (generate_command (step_with_dir "/a b"))
  = Some "/workspace/'/a b'".
Proof. reflexivity. Qed.

(** ** The buffer of the assembler *)

(** X5.  The assembler never raises and does not touch a buffer that
    was there before: it leaves the store as it was, with one buffer
    more, its own, closed; reading that buffer again raises. *)
Theorem generate_script_closes_buffer (cloudbuild : CloudBuild)
    (h : StringIO.store) :
  snd (generate_script cloudbuild h) = (h ++ [None])%list
  /\ (exists script, fst (generate_script cloudbuild h) = OK script)
  /\ fst (StringIO.getvalue (length h) (snd (generate_script cloudbuild h)))
     = Raise (ValueError ClosedFile).
Proof.
  rewrite generate_script_run. cbn [fst snd].
  split; [reflexivity|]. split; [now eexists|].
  unfold StringIO.getvalue. now rewrite nth_error_last.
Qed.

(** ** The whole run *)

Lemma get_cloudbuild_flags (raw : value) (flags : Args.Namespace)
    (cloudbuild : CloudBuild) :
  get_cloudbuild raw flags = OK cloudbuild ->
  output_script cloudbuild = Args.output_script flags
  /\ run cloudbuild = Args.run flags.
Proof.
  unfold get_cloudbuild. destruct (negb (is_dict raw)); [discriminate|].
  destruct (get_field_value raw (Field "steps") List) as [[|v l]|];
    cbn [bind]; try discriminate.
  destruct (comprehension get_step (v :: l)); cbn [bind]; [|discriminate].
  intros H. injection H as <-. now split.
Qed.

Lemma local_cloudbuild_run (p : Os.platform) (flags : Args.Namespace)
    (w : Os.world) (config_file : Os.file) (raw : value) :
  Os.find (Args.config flags) (Os.files w) = Some config_file ->
  Os.safe_load p (Os.data config_file) = Os.Done raw ->
  local_cloudbuild p flags w =
  match get_cloudbuild raw flags with
  | Raise e => (Os.Failed (Os.Core e), w)
  | OK cloudbuild =>
      let path := Args.output_script flags in
      match Os.open_write p path (script_text (steps cloudbuild))
              (assembled path w) with
      | (Os.Failed f, w2) => (Os.Failed f, w2)
      | (Os.Done _, w2) =>
          match Os.stat p path w2 with
          | (Os.Failed f, w3) => (Os.Failed f, w3)
          | (Os.Done mode, w3) =>
              match Os.chmod p path (make_executable_mode mode) w3 with
              | (Os.Failed f, w4) => (Os.Failed f, w4)
              | (Os.Done _, w4) =>
                  if Args.run flags
                  then Os.check_call p [Os.abspath p path] w4
                  else (Os.Done tt, w4)
              end
          end
      end
  end.
Proof.
  intros F L. unfold local_cloudbuild.
  unfold Os.then_ at 1, Os.read_text. rewrite F.
  unfold Os.then_ at 1. rewrite L.
  unfold Os.then_ at 1, Os.of_result.
  destruct (get_cloudbuild raw flags) as [cloudbuild|e] eqn:G; [|reflexivity].
  destruct (get_cloudbuild_flags _ _ _ G) as [Ho Hr].
  unfold Os.then_ at 1, Os.of_io. rewrite generate_script_run.
  unfold Os.then_ at 1, write_script.
  unfold Os.then_ at 1, Os.print. unfold Os.then_ at 1.
  cbn [Os.files Os.buffers Os.stdout]. rewrite Ho, Hr. cbv zeta.
  fold (assembled (Args.output_script flags) w).
  destruct (Os.open_write p (Args.output_script flags)
              (script_text (steps cloudbuild))
              (assembled (Args.output_script flags) w)) as [[[]|f] w2];
    [|reflexivity].
  unfold make_executable, Os.then_.
  destruct (Os.stat p (Args.output_script flags) w2) as [[mode|f] w3];
    [|reflexivity].
  destruct (Os.chmod p (Args.output_script flags)
              (make_executable_mode mode) w3) as [[[]|f] w4];
    [|reflexivity].
  unfold Os.ret. destruct (Args.run flags); reflexivity.
Qed.

(** X8.  A run fails before anything is written when the configuration
    file is not there, when the parser raises, and when validation raises:
    the exception leaves [local_cloudbuild] and the world is as it was (no
    file written or changed, nothing printed, no subprocess started). *)
Theorem local_cloudbuild_fails_early (p : Os.platform)
    (flags : Args.Namespace) (w : Os.world) :
  (Os.find (Args.config flags) (Os.files w) = None ->
   local_cloudbuild p flags w
   = (Os.Failed (Os.FileNotFoundError (Args.config flags)), w))
  /\ (forall config_file f,
        Os.find (Args.config flags) (Os.files w) = Some config_file ->
        Os.safe_load p (Os.data config_file) = Os.Failed f ->
        local_cloudbuild p flags w = (Os.Failed f, w))
  /\ (forall config_file raw e,
        Os.find (Args.config flags) (Os.files w) = Some config_file ->
        Os.safe_load p (Os.data config_file) = Os.Done raw ->
        get_cloudbuild raw flags = Raise e ->
        local_cloudbuild p flags w = (Os.Failed (Os.Core e), w)).
Proof.
  split; [|split].
  - intros F. unfold local_cloudbuild, Os.then_ at 1, Os.read_text.
    now rewrite F.
  - intros config_file f F L. unfold local_cloudbuild.
    unfold Os.then_ at 1, Os.read_text. rewrite F.
    unfold Os.then_ at 1. now rewrite L.
  - intros config_file raw e F L G.
    rewrite (local_cloudbuild_run p flags w config_file raw F L).
    now rewrite G.
Qed.

Lemma local_cloudbuild_fails_early_witness :
  local_cloudbuild (test_platform (VDict [("steps", VStr "astring")]))
    test_flags test_world
  = (Os.Failed
       (Os.Core (ValueError (FieldMismatch (Field "steps") TList TStr))),
     test_world).
Proof.
  apply (proj2 (proj2 (local_cloudbuild_fails_early
                         (test_platform (VDict [("steps", VStr "astring")]))
                         test_flags test_world))
           _ (VDict [("steps", VStr "astring")]) _ eq_refl eq_refl eq_refl).
Defined.



(** When [open] raises, the run ends there: no subprocess. *)
Example local_cloudbuild_cannot_write :
  fst (local_cloudbuild (read_only_platform two_steps) test_flags test_world)
  = Os.Failed (Os.OSError "IsADirectoryError" "some_output_script").
Proof. reflexivity. Qed.

(** ** More on validation *)

Lemma comprehension_OK {A B} (f : A -> result B) (l : list A) (bs : list B) :
  comprehension f l = OK bs <-> Forall2 (fun a b => f a = OK b) l bs.
Proof.
  revert bs. induction l as [|a l IH]; intros bs; cbn [comprehension].
  - split; intros H.
    + injection H as <-. constructor.
    + now inversion H.
  - split; intros H.
    + destruct (f a) as [b|] eqn:E; cbn [bind] in H; [|discriminate].
      destruct (comprehension f l) as [bs'|] eqn:C; cbn [bind] in H;
        [|discriminate].
      injection H as <-. constructor; [exact E | now apply IH].
    + inversion H as [|a' b l' bs' E T]; subst.
      rewrite E. cbn [bind]. apply IH in T. now rewrite T.
Qed.

Lemma comprehension_first_error {A B} (f : A -> result B)
    (pre : list A) (bad : A) (post : list A) (e : exn) :
  Forall (fun a => exists b, f a = OK b) pre ->
  f bad = Raise e ->
  comprehension f (pre ++ bad :: post)%list = Raise e.
Proof.
  intros P E. induction P as [|a pre [b Ha] _ IH]; cbn [app comprehension].
  - now rewrite E.
  - rewrite Ha. cbn [bind]. now rewrite IH.
Qed.

(** X11.  Validation returns a recipe exactly when the document is a
    mapping whose [steps] is a non-empty list every element of which
    [get_step] accepts.  The recipe then has one step for each element, in
    the order of the document, each the validation of its element, and
    the output path and the run flag of the command line. *)
Theorem get_cloudbuild_success (raw : value) (flags : Args.Namespace)
    (cloudbuild : CloudBuild) :
  get_cloudbuild raw flags = OK cloudbuild
  <-> exists d raw_steps,
        raw = VDict d
        /\ assoc "steps" d = Some (VList raw_steps)
        /\ raw_steps <> []
        /\ Forall2 (fun raw_step step => get_step raw_step = OK step)
             raw_steps (steps cloudbuild)
        /\ length (steps cloudbuild) = length raw_steps
        /\ output_script cloudbuild = Args.output_script flags
        /\ run cloudbuild = Args.run flags.
Proof.
  split.
  - intros H. destruct (get_cloudbuild_flags _ _ _ H) as [Ho Hr].
    unfold get_cloudbuild in H. destruct raw as [| | |d]; try discriminate H.
    cbn [is_dict negb] in H. unfold get_field_value in H. cbn [lookup] in H.
    destruct (assoc "steps" d) as [[| |[|v l]|]|] eqn:A; cbn [bind] in H;
      try discriminate H.
    destruct (comprehension get_step (v :: l)) as [ss|] eqn:C;
      cbn [bind] in H; [|discriminate H].
    injection H as <-. cbn [steps] in *. apply comprehension_OK in C.
    exists d, (v :: l).
    split; [reflexivity|]. split; [exact A|]. split; [discriminate|].
    split; [exact C|]. split; [symmetry; exact (Forall2_length C)|].
    now split.
  - intros (d & l & -> & A & Hne & F & _ & Ho & Hr).
    unfold get_cloudbuild, get_field_value. cbn [is_dict negb lookup].
    rewrite A. cbn [bind]. destruct l as [|v l]; [congruence|].
    apply comprehension_OK in F. rewrite F. cbn [bind].
    destruct cloudbuild; cbn in *; now subst.
Qed.

Lemma get_cloudbuild_success_witness :
  exists d raw_steps,
    two_steps = VDict d
    /\ assoc "steps" d = Some (VList raw_steps)
    /\ length raw_steps = 2.
Proof.
  destruct (proj1 (get_cloudbuild_success two_steps test_flags
                     {| output_script := "some_output_script";
                        run := false;
                        steps :=
                          [ {| args := []; dir_ := EmptyString; env := [];
                               name := "step1" |};
                            {| args := []; dir_ := EmptyString; env := [];
                               name := "step2" |} ] |}) eq_refl)
    as (d & l & E & A & _ & _ & Len & _).
  exists d, l. repeat split; try assumption. now rewrite <- Len.
Defined.

(** X12.  One step that does not validate fails the whole document:
    when the steps before it validate, the exception of the first step
    that does not is the exception of the validation, whatever comes
    after it. *)
Theorem get_cloudbuild_first_invalid_step (d : list (string * value))
    (flags : Args.Namespace) (pre : list value) (bad : value)
    (post : list value) (e : exn) :
  assoc "steps" d = Some (VList (pre ++ bad :: post)%list) ->
  Forall (fun raw_step => exists step, get_step raw_step = OK step) pre ->
  get_step bad = Raise e ->
  get_cloudbuild (VDict d) flags = Raise e.
Proof.
  intros A P E. unfold get_cloudbuild, get_field_value.
  cbn [is_dict negb lookup]. rewrite A. cbn [bind].
  rewrite (comprehension_first_error get_step pre bad post e P E).
  destruct pre; reflexivity.
Qed.

Lemma get_cloudbuild_first_invalid_step_witness :
  get_cloudbuild
    (VDict [("steps", VList [VDict [("name", VStr "step1")];
                             VStr "step2";
                             VDict [("name", VList [])]])])
    test_flags
  = Raise (ValueError (StepNotDict TStr)).
Proof.
  apply (get_cloudbuild_first_invalid_step _ test_flags
           [VDict [("name", VStr "step1")]] (VStr "step2")
           [VDict [("name", VList [])]]).
  - reflexivity.
  - repeat constructor. eexists. reflexivity.
  - reflexivity.
Defined.

(** X13.  [get_step] reads the four fields [args], [dir], [env] and
    [name] and nothing else: two mappings that agree on these four give
    the same step or the same exception, whatever other keys they have
    and in whatever order. *)
Theorem get_step_reads_four_fields (d d' : list (string * value)) :
  (forall k, In k ["args"; "dir"; "env"; "name"] -> assoc k d = assoc k d') ->
  get_step (VDict d) = get_step (VDict d').
Proof.
  intros H. unfold get_step, get_field_value. cbn [is_dict negb lookup].
  rewrite (H "args"), (H "dir"), (H "env"), (H "name") by (cbn; tauto).
  reflexivity.
Qed.

Lemma get_step_reads_four_fields_witness :
  get_step (VDict (("id", VStr "build") :: ("waitFor", VList []) :: full_step))
  = get_step (VDict (rev full_step)).
Proof.
  apply get_step_reads_four_fields.
  intros k [<-|[<-|[<-|[<-|[]]]]]; reflexivity.
Defined.

Lemma strings_are_scalars (l : list string) :
  forallb scalar (map VStr l) = true /\ map string_form (map VStr l) = l.
Proof.
  induction l as [|s l [IH1 IH2]]; [now split|].
  cbn [map forallb scalar string_form andb]. split; [exact IH1|].
  now rewrite IH2.
Qed.

(** X14.  Strings pass through validation unchanged: a mapping whose
    [name] and [dir] are strings and whose [args] and [env] are lists of
    strings validates, and the step has exactly these strings, in order. *)
Theorem get_step_keeps_strings (d : list (string * value))
    (a : list string) (dr : string) (e : list string) (n : string) :
  assoc "args" d = Some (VList (map VStr a)) ->
  assoc "dir" d = Some (VStr dr) ->
  assoc "env" d = Some (VList (map VStr e)) ->
  assoc "name" d = Some (VStr n) ->
  get_step (VDict d) = OK {| args := a; dir_ := dr; env := e; name := n |}.
Proof.
  intros A D E N. unfold get_step. cbn [is_dict negb].
  destruct (strings_are_scalars a) as [Sa Ma].
  destruct (strings_are_scalars e) as [Se Me].
  rewrite (strings_field_accepted d "args")
    by (rewrite A; exact Sa).
  rewrite (string_field_accepted d "dir") by (now rewrite D).
  rewrite (strings_field_accepted d "env")
    by (rewrite E; exact Se).
  rewrite (string_field_accepted d "name") by (now rewrite N).
  rewrite A, D, E, N. cbn [strings_of_field string_of_field string_form].
  now rewrite Ma, Me.
Qed.

Lemma get_step_keeps_strings_witness :
  get_step
    (VDict [("name", VStr "debian");
            ("args", VList [VStr "/bin/sh"; VStr "-c"]);
            ("env", VList [VStr "MESSAGE=Hello World!"]);
            ("dir", VStr "adir")])
  = OK {| args := ["/bin/sh"; "-c"]; dir_ := "adir";
          env := ["MESSAGE=Hello World!"]; name := "debian" |}.
Proof.
  apply (get_step_keeps_strings _ ["/bin/sh"; "-c"] "adir"
           ["MESSAGE=Hello World!"] "debian"); reflexivity.
Defined.

(** ** The default of the output path *)

Lemma append_nonempty (a b : string) :
  b <> EmptyString -> a ++ b <> EmptyString /\ a ++ b <> a.
Proof.
  intros Hb. split.
  - destruct a; [exact Hb | discriminate].
  - induction a as [|c a IH]; cbn [append]; [exact Hb|].
    intros H. injection H as H. now apply IH.
Qed.

(** X15.  After the last step of [parse_args] the output path is never
    empty, also when the flag was given an empty value; the configuration
    path and the run flag are as parsed; and the output path is the
    configuration path only when the command line gave that very path
    for the output: the default never makes the program write over its
    configuration file. *)
Theorem default_output_script_safe (parsed : ParsedFlags) :
  let flags := default_output_script parsed in
  Args.output_script flags <> EmptyString
  /\ Args.config flags = parsed_config parsed
  /\ Args.run flags = parsed_run parsed
  /\ (Args.output_script flags = Args.config flags ->
      parsed_output_script parsed = Some (parsed_config parsed)).
Proof.
  cbv zeta. unfold default_output_script.
  destruct (append_nonempty (parsed_config parsed) "_local.sh") as [Hne Hc];
    [discriminate|].
  cbn [Args.output_script Args.config Args.run].
  destruct (parsed_output_script parsed) as [s|].
  - destruct (truthy s) eqn:T.
    + apply truthy_true in T. repeat split; [exact T|]. now intros ->.
    + repeat split; [exact Hne|]. intros H. now elim Hc.
  - repeat split; [exact Hne|]. intros H. now elim Hc.
Qed.

Lemma default_output_script_safe_witness :
  Args.output_script
    (default_output_script
       {| parsed_config := "my_config"; parsed_output_script := None;
          parsed_run := true |})
  <> EmptyString.
Proof.
  exact (proj1 (default_output_script_safe
                  {| parsed_config := "my_config";
                     parsed_output_script := None;
                     parsed_run := true |})).
Defined.

(** The cases of [test_parse_args]. *)
Example parse_args_explicit :
  Args.output_script
    (default_output_script
       {| parsed_config := "cloudbuild.yaml";
          parsed_output_script := Some "my_output"; parsed_run := true |})
  = "my_output".
Proof. reflexivity. Qed.

Example parse_args_implicit :
  Args.output_script
    (default_output_script
       {| parsed_config := "my_config"; parsed_output_script := None;
          parsed_run := true |})
  = "my_config_local.sh".
Proof. reflexivity. Qed.

Example parse_args_empty_value :
  Args.output_script
    (default_output_script
       {| parsed_config := "cloudbuild.yaml";
          parsed_output_script := Some EmptyString; parsed_run := false |})
  = "cloudbuild.yaml_local.sh".
Proof. reflexivity. Qed.
